(** * vpMeEllipse: moving edges on an ellipse

    A shallow embedding of the class [vpMeEllipse] declared in
    [src/tracking/moving-edges/vpMeEllipse.h], with the properties its
    specification states.

    Part I embeds what the header defines inline: the data members, the read
    accessors, [setCircle] and [setThresholdRobust].  A C++ [double] is an
    IEEE-754 binary64 value, that is Rocq's primitive [float]; comparisons
    are the primitive ones, so that NaN and the signed zeros behave as they
    do in the program. *)

From Stdlib Require Import Bool ZArith PArith List Lia.
From Stdlib Require Import Floats.
Import ListNotations.

(** ** Comparison of binary64 values *)

Module Double.

Definition double : Type := float.

(** The C++ operators [x < y], [x > y], [x <= y] on doubles. *)
Definition lt (x y : double) : bool := PrimFloat.ltb x y.
Definition gt (x y : double) : bool := PrimFloat.ltb y x.
Definition le (x y : double) : bool := PrimFloat.leb x y.

(** A double is a real number or an infinity unless it is a NaN. *)
Definition is_nan (x : double) : bool := PrimFloat.is_nan x.

(** The integer literals [0] and [1], converted to double. *)
Definition d0 : double := 0%float.
Definition d1 : double := 1%float.

(** Minimum and maximum of two ordered values, defined from [<=] the way
    the Standard Library defines [Rmin] and [Rmax]. *)
Definition max (x y : double) : double := if le x y then y else x.
Definition min (x y : double) : double := if le x y then x else y.

(** The same two functions as C++ defines [std::max] and [std::min], from
    [<]: on a tie (the two zeros) they return the other operand. *)
Definition std_max (x y : double) : double := if lt x y then y else x.
Definition std_min (x y : double) : double := if lt y x then y else x.

(** The C++ operator [x == y] on doubles. *)
Definition eqb (x y : double) : bool := PrimFloat.eqb x y.

End Double.

(** ** The class [vpMeEllipse] *)

Module vpMeEllipse.

Import Double.

(** Modelled from the spec: [vpImagePoint] ([visp/vpImagePoint.h] is not
    among the sources) is a point of the image frame, given by its
    coordinates [(i, j)]. *)
Record vpImagePoint : Type := mkImagePoint {
  get_i : double;
  get_j : double
}.

(** Modelled from the spec: [vpMeSite] ([visp/vpMeSite.h] is not among the
    sources) is a tracked boundary sample: a 2D position and the scalar
    reliability weight supplied by the edge search.  The parametric angle of
    a site is kept by the class in the list [angle]. *)
Record vpMeSite : Type := mkSite {
  position : vpImagePoint;
  weight : double
}.

(** Modelled from the spec: the base class [vpMeTracker]
    ([visp/vpMeTracker.h] is not among the sources) owns the active site
    set, an ordered list of sites. *)
Record vpMeTracker : Type := mkTracker {
  list_ : list vpMeSite
}.

(** The data members of [vpMeEllipse], in the order of their declaration
    (header lines 309-347), after the base-class subobject.  [K] is the
    column vector of the five conic coefficients. *)
Record t : Type := mk {
  base : vpMeTracker;
  K : list double;
  iPc : vpImagePoint;
  a : double;
  b : double;
  e : double;
  iP1 : vpImagePoint;
  iP2 : vpImagePoint;
  alpha1 : double;
  alpha2 : double;
  ce : double;
  se : double;
  angle : list double;
  m00 : double;
  mu11 : double;
  mu20 : double;
  mu02 : double;
  m10 : double;
  m01 : double;
  m11 : double;
  m02 : double;
  m20 : double;
  thresholdWeight : double;
  circle : bool
}.

(** Assignments to single members. *)
Definition set_thresholdWeight (v : double) (this : t) : t :=
  mk (base this) (K this) (iPc this) (a this) (b this) (e this) (iP1 this)
     (iP2 this) (alpha1 this) (alpha2 this) (ce this) (se this) (angle this)
     (m00 this) (mu11 this) (mu20 this) (mu02 this) (m10 this) (m01 this)
     (m11 this) (m02 this) (m20 this) v (circle this).

Definition set_circle (v : bool) (this : t) : t :=
  mk (base this) (K this) (iPc this) (a this) (b this) (e this) (iP1 this)
     (iP2 this) (alpha1 this) (alpha2 this) (ce this) (se this) (angle this)
     (m00 this) (mu11 this) (mu20 this) (mu02 this) (m10 this) (m01 this)
     (m11 this) (m02 this) (m20 this) (thresholdWeight this) v.

Definition set_K (v : list double) (this : t) : t :=
  mk (base this) v (iPc this) (a this) (b this) (e this) (iP1 this)
     (iP2 this) (alpha1 this) (alpha2 this) (ce this) (se this) (angle this)
     (m00 this) (mu11 this) (mu20 this) (mu02 this) (m10 this) (m01 this)
     (m11 this) (m02 this) (m20 this) (thresholdWeight this) (circle this).

Definition set_list (v : list vpMeSite) (this : t) : t :=
  mk (mkTracker v) (K this) (iPc this) (a this) (b this) (e this) (iP1 this)
     (iP2 this) (alpha1 this) (alpha2 this) (ce this) (se this) (angle this)
     (m00 this) (mu11 this) (mu20 this) (mu02 this) (m10 this) (m01 this)
     (m11 this) (m02 this) (m20 this) (thresholdWeight this) (circle this).

(** A member function that returns a value: it reads the object and leaves
    a (possibly updated) object behind. *)
Definition method (A : Type) : Type := t -> A * t.

(** [void setCircle(bool circle) { this->circle = circle ; }] *)
Definition setCircle (circle_ : bool) (this : t) : t := set_circle circle_ this.

(** The moment getters, header lines 187-243. *)
Definition get_m00 : method double := fun this => (m00 this, this).
Definition get_m10 : method double := fun this => (m10 this, this).
Definition get_m01 : method double := fun this => (m01 this, this).
Definition get_m11 : method double := fun this => (m11 this, this).
Definition get_m20 : method double := fun this => (m20 this, this).
Definition get_m02 : method double := fun this => (m02 this, this).
Definition get_mu11 : method double := fun this => (mu11 this, this).
Definition get_mu02 : method double := fun this => (mu02 this, this).
Definition get_mu20 : method double := fun this => (mu20 this, this).

(** The geometric getters, header lines 248-263. *)
Definition getCenter : method vpImagePoint := fun this => (iPc this, this).
Definition getA : method double := fun this => (a this, this).
Definition getB : method double := fun this => (b this, this).
Definition getE : method double := fun this => (e this, this).

(** The [double] data members of the class (header lines 313-343): the
    members a reference of type [double&] can designate. *)
Inductive field : Type :=
  | Fa | Fb | Fe | Falpha1 | Falpha2 | Fce | Fse
  | Fm00 | Fmu11 | Fmu20 | Fmu02 | Fm10 | Fm01 | Fm11 | Fm02 | Fm20
  | FthresholdWeight.

Definition field_index (f : field) : nat :=
  match f with
  | Fa => 0 | Fb => 1 | Fe => 2 | Falpha1 => 3 | Falpha2 => 4 | Fce => 5
  | Fse => 6 | Fm00 => 7 | Fmu11 => 8 | Fmu20 => 9 | Fmu02 => 10
  | Fm10 => 11 | Fm01 => 12 | Fm11 => 13 | Fm02 => 14 | Fm20 => 15
  | FthresholdWeight => 16
  end.

(** The new value of the member [g] when [v] is assigned to the member
    [f]: [v] if they are the same member, the value it had otherwise. *)
Definition assigned (f g : field) (v was : double) : double :=
  if Nat.eqb (field_index f) (field_index g) then v else was.

(** Assignment to the member [f]. *)
Definition set_member (f : field) (v : double) (this : t) : t :=
  mk (base this) (K this) (iPc this)
     (assigned f Fa v (a this)) (assigned f Fb v (b this))
     (assigned f Fe v (e this)) (iP1 this) (iP2 this)
     (assigned f Falpha1 v (alpha1 this)) (assigned f Falpha2 v (alpha2 this))
     (assigned f Fce v (ce this)) (assigned f Fse v (se this)) (angle this)
     (assigned f Fm00 v (m00 this)) (assigned f Fmu11 v (mu11 this))
     (assigned f Fmu20 v (mu20 this)) (assigned f Fmu02 v (mu02 this))
     (assigned f Fm10 v (m10 this)) (assigned f Fm01 v (m01 this))
     (assigned f Fm11 v (m11 this)) (assigned f Fm02 v (m02 this))
     (assigned f Fm20 v (m20 this))
     (assigned f FthresholdWeight v (thresholdWeight this)) (circle this).

(** The [double] variables of the caller, outside the tracker, by number. *)
Definition variables : Type := nat -> double.

Definition assign (n : nat) (v : double) (vars : variables) : variables :=
  fun m => if Nat.eqb m n then v else vars m.

(** What a parameter of type [double&] is bound to: a variable of the
    caller, or a member of the tracker the call is made on (the members
    [a], [b], [e] are public under [VISP_BUILD_DEPRECATED_FUNCTIONS], all of
    them are accessible to a derived class). *)
Inductive reference : Type :=
  | Variable_ (n : nat)
  | Member (f : field).

(** Assignment through a reference. *)
Definition write (r : reference) (v : double) (st : t * variables)
  : t * variables :=
  match r with
  | Variable_ n => (fst st, assign n v (snd st))
  | Member f => (set_member f v (fst st), snd st)
  end.

(** [void getEquationParam(double &A, double &B, double &E)
      { A = a; B = b; E = e; }]
    Three assignments through the references, in order; each reads the
    member as the assignments before it left it. *)
Definition getEquationParam (A B E : reference) (st : t * variables)
  : t * variables :=
  let st1 := write A (a (fst st)) st in
  let st2 := write B (b (fst st1)) st1 in
  write E (e (fst st2)) st2.

(** [getSmallestAngle] and [getHighestAngle], header lines 273 and 278. *)
Definition getSmallestAngle : method double := fun this => (alpha1 this, this).
Definition getHighestAngle : method double := fun this => (alpha2 this, this).

(** [setThresholdRobust], header lines 289-297:
<<
    if(threshold<0){ thresholdWeight = 0; }
    else if(threshold>1){ thresholdWeight = 1; }
    else{ thresholdWeight = threshold; }
>> *)
Definition setThresholdRobust (threshold : double) (this : t) : t :=
  if lt threshold d0 then set_thresholdWeight d0 this
  else if gt threshold d1 then set_thresholdWeight d1 this
  else set_thresholdWeight threshold this.

(** The claim's closed form of the stored value, [min(1, max(0, t))]. *)
Definition clamp01 (threshold : double) : double := min d1 (max d0 threshold).

(** The same closed form with [std::min] and [std::max]. *)
Definition clamp01_std (threshold : double) : double :=
  std_min d1 (std_max d0 threshold).

(** Membership of the interval [[0,1]]. *)
Definition in_unit_interval (x : double) : bool := le d0 x && le x d1.

(** A tracker to evaluate the definitions on: every scalar member is [0.5],
    every point is [(2, 3)], no site, not a circle. *)
Definition sample_point : vpImagePoint := mkImagePoint 2%float 3%float.
Definition sample_tracker : t :=
  mk (mkTracker []) [1%float; 0%float; 0%float; 0%float; (-1)%float]
     sample_point 0.5%float 0.5%float 0.5%float sample_point sample_point
     0.5%float 0.5%float 0.5%float 0.5%float [] 0.5%float 0.5%float 0.5%float
     0.5%float 0.5%float 0.5%float 0.5%float 0.5%float 0.5%float 0.5%float
     false.

(** The same tracker with semi-axes [a = 3] and [b = 4], and caller
    variables that all hold 0. *)
Definition tracker_3_4 : t :=
  set_member Fb 4%float (set_member Fa 3%float sample_tracker).
Definition no_variables : variables := fun _ => 0%float.

End vpMeEllipse.

(** * Part II: the robust conic fit

    The bodies of [leastSquare], [suppressPoints] and [initTracking] are in
    [vpMeEllipse.cpp], which is not among the sources; the header declares
    them (lines 151-153, 352, 354).  They are modelled here from the
    specification's description of the conic estimator (section 4.2) and of
    the initializing state (section 4.7), over the members of Part I.  What
    the specification leaves open (the linear solver, the robust kernel, the
    stabilization test, the iteration cap, the steps that follow the fit) is
    a parameter of the model. *)

Module ConicEstimator.

Import Double vpMeEllipse.

(** The errors of the specification's section 7. *)
Inductive error : Type :=
  | InsufficientPointsError
  | DegenerateGeometryError
  | TrackingLostError.

Inductive result (A : Type) : Type :=
  | Ok (x : A)
  | Err (err : error).

Arguments Ok {A} x.
Arguments Err {A} err.

(** Two sites are the same point when their coordinates compare equal. *)
Definition same_position (p q : vpImagePoint) : bool :=
  PrimFloat.eqb (get_i p) (get_i q) && PrimFloat.eqb (get_j p) (get_j q).

Definition occurs (p : vpImagePoint) (sites : list vpMeSite) : bool :=
  existsb (fun s => same_position p (position s)) sites.

(** The number of distinct points of a site list. *)
Fixpoint distinct_points (sites : list vpMeSite) : nat :=
  match sites with
  | [] => 0
  | s :: rest =>
      if occurs (position s) rest then distinct_points rest
      else S (distinct_points rest)
  end.

(** Modelled from the spec: the point count [leastSquare] checks (its body
    is missing): the minimum number of distinct points a fit requires, "5
    for ellipse, 3 for circle". *)
Definition min_points (circle_ : bool) : nat := if circle_ then 3 else 5.

(** The coefficient [K_n] of the column vector [K]. *)
Definition coef (K_ : list double) (n : nat) : double := nth n K_ d0.

(** The left-hand side of the implicit equation of the header (line 71),
    [i^2 + K0 j^2 + 2 K1 i j + 2 K2 i + 2 K3 j + K4], at a point. *)
Definition residual (K_ : list double) (p : vpImagePoint) : double :=
  let i := get_i p in
  let j := get_j p in
  (i * i + coef K_ 0 * (j * j) + 2 * coef K_ 1 * (i * j)
   + 2 * coef K_ 2 * i + 2 * coef K_ 3 * j + coef K_ 4)%float.

(** Modelled from the spec: the degeneracy test of [leastSquare] (its body
    is missing): the coefficients describe a real ellipse when the
    discriminant [K0 - K1^2] of the quadratic part is positive. *)
Definition discriminant (K_ : list double) : double :=
  (coef K_ 0 - coef K_ 1 * coef K_ 1)%float.

Section Estimator.

(** The weighted least-squares solution of the linear system built over
    the sites, in its general form (five unknowns [K0..K4]) and in its
    reduced form (three unknowns [K2, K3, K4]); [None] when the system has
    no solution (near-collinear input). *)
Variable solve_ellipse : list vpMeSite -> list double -> option (list double).
Variable solve_circle :
  list vpMeSite -> list double -> option (double * double * double).

(** The robust weight function, from a residual to a weight. *)
Variable weight_function : double -> double.

(** The stabilization test on the weights of two successive fits. *)
Variable stabilized : list double -> list double -> bool.

(** The iteration cap of the re-weighting loop. *)
Variable iteration_cap : nat.

(** Modelled from the spec: the fit of [leastSquare] (its body is
    missing): "Builds the linear system for the implicit conic over all
    active sites (reduced form in circle mode) and solves it by weighted
    least squares"; "in circle mode K0 = 1, K1 = 0". *)
Definition fit (circle_ : bool) (sites : list vpMeSite) (w : list double)
  : option (list double) :=
  if circle_ then
    match solve_circle sites w with
    | Some (k2, k3, k4) => Some [d1; d0; k2; k3; k4]
    | None => None
    end
  else solve_ellipse sites w.

(** Modelled from the spec: the weights of [leastSquare] (its body is
    missing): "per-site residual is converted to a weight via a robust
    weight function". *)
Definition site_weight (K_ : list double) (s : vpMeSite) : double :=
  weight_function (residual K_ (position s)).

(** Modelled from the spec: the flag [leastSquare] sets (its body is
    missing): "any site whose weight falls below RejectionThreshold is
    flagged".  The threshold is the member [thresholdWeight]. *)
Definition flagged (thr : double) (K_ : list double) (s : vpMeSite) : bool :=
  lt (site_weight K_ s) thr.

(** Modelled from the spec: [suppressPoints] (declared at header line
    354, its body is missing): the flagged sites are "permanently excluded
    from the active set"; the others are kept, in order. *)
Definition suppressPoints (thr : double) (K_ : list double)
  (sites : list vpMeSite) : list vpMeSite :=
  filter (fun s => negb (flagged thr K_ s)) sites.

(** Modelled from the spec: the end of [leastSquare] (its body is
    missing): it "fails with DegenerateGeometryError if the resulting
    coefficients do not describe a real ellipse", and returns the
    coefficients and the reduced site set otherwise. *)
Definition conclude (K_ : list double) (sites : list vpMeSite)
  : result (list double * list vpMeSite) :=
  if lt d0 (discriminant K_) then Ok (K_, sites)
  else Err DegenerateGeometryError.

(** Modelled from the spec: the loop of [leastSquare] (its body is
    missing), the "iterative re-weighting loop".  Each iteration checks that
    enough distinct points remain, fits, converts the residuals to weights
    and suppresses the flagged sites; the loop stops when the weights
    stabilize or when the cap is reached.  [n] is the number of iterations
    still allowed after this one, [w] the weights the fit uses. *)
Fixpoint reweight (n : nat) (circle_ : bool) (thr : double)
  (sites : list vpMeSite) (w : list double)
  : result (list double * list vpMeSite) :=
  if distinct_points sites <? min_points circle_ then
    Err InsufficientPointsError
  else
    match fit circle_ sites w with
    | None => Err DegenerateGeometryError
    | Some K_ =>
        let w' := map (site_weight K_) sites in
        let sites' := suppressPoints thr K_ sites in
        match n with
        | O => conclude K_ sites'
        | S n' =>
            if stabilized w w' then conclude K_ sites'
            else reweight n' circle_ thr sites' (map (site_weight K_) sites')
        end
    end.

(** One iteration of the loop as an observer sees it: the active set it
    starts from, the coefficients it fits (none when it fails before or in
    the fit) and the active set it leaves. *)
Record iteration : Type := mkIteration {
  before : list vpMeSite;
  fitted : option (list double);
  after : list vpMeSite
}.

(** The iterations [reweight] goes through, in order: the same recursion,
    recording each iteration instead of returning the outcome. *)
Fixpoint iterations (n : nat) (circle_ : bool) (thr : double)
  (sites : list vpMeSite) (w : list double) : list iteration :=
  if distinct_points sites <? min_points circle_ then
    [mkIteration sites None sites]
  else
    match fit circle_ sites w with
    | None => [mkIteration sites None sites]
    | Some K_ =>
        let w' := map (site_weight K_) sites in
        let sites' := suppressPoints thr K_ sites in
        mkIteration sites (Some K_) sites' ::
        match n with
        | O => []
        | S n' =>
            if stabilized w w' then []
            else iterations n' circle_ thr sites' (map (site_weight K_) sites')
        end
    end.

(** What a run returns, read off the iteration it stops at. *)
Definition outcome (circle_ : bool) (it : iteration)
  : result (list double * list vpMeSite) :=
  match fitted it with
  | Some K_ => conclude K_ (after it)
  | None =>
      if distinct_points (before it) <? min_points circle_ then
        Err InsufficientPointsError
      else Err DegenerateGeometryError
  end.

(** Modelled from the spec: [leastSquare] (declared at header line 352,
    its body is missing): the re-weighting loop on the tracker's active
    sites, starting from the weights the edge search gave them; its output
    is the "updated K and the (possibly reduced) active site set". *)
Definition leastSquare (this : t) : result t :=
  match reweight iteration_cap (circle this) (thresholdWeight this)
          (list_ (base this)) (map weight (list_ (base this))) with
  | Ok (K_, sites) => Ok (set_list sites (set_K K_ this))
  | Err err => Err err
  end.

(** The iterations of a call of [leastSquare]. *)
Definition leastSquare_iterations (this : t) : list iteration :=
  iterations iteration_cap (circle this) (thresholdWeight this)
    (list_ (base this)) (map weight (list_ (base this))).

(** The steps of the initialization that follow the fit: parameter
    extraction and sampling of the full site set. *)
Variable populate : t -> result t.

(** Modelled from the spec: the sites [initTracking] starts from (its body
    is missing): the supplied points, in order, each with full weight. *)
Definition seed (points : list vpImagePoint) : list vpMeSite :=
  map (fun p => mkSite p d1) points.

(** Modelled from the spec: [initTracking] (declared at header lines
    152-153, its body is missing): the initializing state "consumes an
    externally supplied ordered sequence of points, performs an initial
    least-squares fit, then runs the sampler to populate the full active
    site set", and reports the error of a step that fails. *)
Definition initTracking (points : list vpImagePoint) (this : t) : result t :=
  match leastSquare (set_list (seed points) this) with
  | Ok this' => populate this'
  | Err err => Err err
  end.

(** The iterations of the fit of an initialization. *)
Definition initTracking_iterations (points : list vpImagePoint) (this : t)
  : list iteration :=
  leastSquare_iterations (set_list (seed points) this).

End Estimator.

(** An instance to evaluate the model on: the solver answers the circle
    [i^2 + j^2 - 25 = 0] whatever the sites, the kernel gives weight 1 to a
    residual in [(-0.5, 0.5)] and 0 to any other, the loop never declares
    the weights stable and may run three more iterations. *)
Definition circle5 : list double :=
  [1%float; 0%float; 0%float; 0%float; (-25)%float].
Definition demo_solve_ellipse (_ : list vpMeSite) (_ : list double)
  : option (list double) := Some circle5.
Definition demo_solve_circle (_ : list vpMeSite) (_ : list double)
  : option (double * double * double) := Some (0%float, 0%float, (-25)%float).
Definition demo_weight (r : double) : double :=
  if lt (PrimFloat.abs r) 0.5%float then 1%float else 0%float.
Definition demo_stabilized (_ _ : list double) : bool := false.
Definition demo_cap : nat := 3.
Definition demo_populate (this : t) : result t := Ok this.

(** Six points of that circle and one point far from it. *)
Definition on_circle : list vpImagePoint :=
  [ mkImagePoint 5%float 0%float; mkImagePoint 3%float 4%float;
    mkImagePoint 0%float 5%float; mkImagePoint (-4)%float 3%float;
    mkImagePoint (-5)%float 0%float; mkImagePoint 0%float (-5)%float ].
Definition outlier : vpImagePoint := mkImagePoint 10%float 10%float.

End ConicEstimator.

(** * Properties

    ** The order of binary64 values *)

Module DoubleFacts.

Import Double.

(** [SFcompare] is antisymmetric: swapping the operands reverses the
    outcome, and a comparison with a NaN has no outcome on either side. *)
Lemma SFcompare_swap (x y : spec_float) :
  SFcompare y x = option_map CompOpp (SFcompare x y).
Proof.
  destruct x as [sx | sx | | sx mx ex], y as [sy | sy | | sy my ey];
    simpl; try reflexivity;
    try (destruct sx; reflexivity);
    try (destruct sy; reflexivity);
    try (destruct sx, sy; reflexivity).
  destruct sx, sy; simpl; try reflexivity.
  - rewrite (Z.compare_antisym ey ex).
    destruct (ey ?= ex)%Z; simpl; try reflexivity.
    rewrite (Pos.compare_cont_antisym mx my Eq). reflexivity.
  - rewrite (Z.compare_antisym ey ex).
    destruct (ey ?= ex)%Z; simpl; try reflexivity.
    rewrite (Pos.compare_cont_antisym mx my Eq). reflexivity.
Qed.

Lemma SFcompare_not_nan (x y : spec_float) :
  x <> S754_nan -> y <> S754_nan -> SFcompare x y <> None.
Proof.
  destruct x as [sx | sx | | sx mx ex], y as [sy | sy | | sy my ey];
    simpl; intros Hx Hy; try congruence.
Qed.

Lemma is_nan_false (x : double) : is_nan x = false -> Prim2SF x <> S754_nan.
Proof.
  unfold is_nan, PrimFloat.is_nan. rewrite eqb_spec. intros H E.
  rewrite E in H. discriminate H.
Qed.

(** On values that are not NaN the order is total: [x < y] fails exactly
    when [y <= x] holds. *)
Lemma lt_false_le (x y : double) :
  is_nan x = false -> is_nan y = false -> lt x y = false -> le y x = true.
Proof.
  intros Hx Hy. unfold lt, le. rewrite ltb_spec, leb_spec.
  unfold SFltb, SFleb. rewrite (SFcompare_swap (Prim2SF x) (Prim2SF y)).
  pose proof (SFcompare_not_nan _ _ (is_nan_false x Hx) (is_nan_false y Hy)) as Hc.
  destruct (SFcompare (Prim2SF x) (Prim2SF y)) as [[ | | ] | ]; simpl;
    congruence.
Qed.

(** [x <= y] excludes [y < x], NaN or not. *)
Lemma le_true_lt (x y : double) : le x y = true -> lt y x = false.
Proof.
  unfold lt, le. rewrite ltb_spec, leb_spec.
  unfold SFltb, SFleb. rewrite (SFcompare_swap (Prim2SF x) (Prim2SF y)).
  destruct (SFcompare (Prim2SF x) (Prim2SF y)) as [[ | | ] | ]; simpl;
    congruence.
Qed.

(** [x < y] gives [x <= y] and excludes [y <= x]. *)
Lemma lt_true_le (x y : double) : lt x y = true -> le x y = true.
Proof.
  unfold lt, le. rewrite ltb_spec, leb_spec. unfold SFltb, SFleb.
  destruct (SFcompare (Prim2SF x) (Prim2SF y)) as [[ | | ] | ]; simpl;
    congruence.
Qed.

Lemma lt_true_not_le (x y : double) : lt x y = true -> le y x = false.
Proof.
  unfold lt, le. rewrite ltb_spec, leb_spec.
  unfold SFltb, SFleb. rewrite (SFcompare_swap (Prim2SF x) (Prim2SF y)).
  destruct (SFcompare (Prim2SF x) (Prim2SF y)) as [[ | | ] | ]; simpl;
    congruence.
Qed.

(** A comparison with a NaN is false. *)
Lemma lt_nan_l (x y : double) : is_nan x = true -> lt x y = false.
Proof.
  unfold is_nan, PrimFloat.is_nan, lt. rewrite eqb_spec, ltb_spec.
  unfold SFeqb, SFltb.
  destruct (Prim2SF x) as [sx | sx | | sx mx ex]; simpl.
  - discriminate.
  - destruct sx; discriminate.
  - reflexivity.
  - destruct sx; simpl; rewrite Z.compare_refl, Pos.compare_cont_refl;
      discriminate.
Qed.

Lemma lt_nan_r (x y : double) : is_nan y = true -> lt x y = false.
Proof.
  intros Hy. pose proof (lt_nan_l y x Hy) as H. revert H.
  unfold lt. rewrite !ltb_spec. unfold SFltb.
  rewrite (SFcompare_swap (Prim2SF x) (Prim2SF y)).
  unfold is_nan, PrimFloat.is_nan in Hy. rewrite eqb_spec in Hy.
  unfold SFeqb in Hy.
  destruct (Prim2SF y) as [sy | sy | | sy my ey].
  - discriminate Hy.
  - destruct sy; discriminate Hy.
  - destruct (Prim2SF x); reflexivity.
  - simpl in Hy. destruct sy; simpl in Hy;
      rewrite Z.compare_refl, Pos.compare_cont_refl in Hy; discriminate Hy.
Qed.

(** [x < y] excludes [y < x]. *)
Lemma lt_asym (x y : double) : lt x y = true -> lt y x = false.
Proof. intros H. apply le_true_lt, lt_true_le, H. Qed.

(** A value that is not a NaN compares equal to itself. *)
Lemma eqb_refl (x : double) : is_nan x = false -> eqb x x = true.
Proof.
  unfold is_nan, PrimFloat.is_nan, eqb. intros H.
  apply negb_false_iff in H. exact H.
Qed.

(** Two values that are not NaN and of which neither is below the other
    compare equal. *)
Lemma not_lt_not_gt_eqb (x y : double) :
  is_nan x = false -> is_nan y = false ->
  lt x y = false -> lt y x = false -> eqb x y = true.
Proof.
  intros Hx Hy. unfold lt, eqb. rewrite !ltb_spec, eqb_spec.
  unfold SFltb, SFeqb. rewrite (SFcompare_swap (Prim2SF x) (Prim2SF y)).
  pose proof (SFcompare_not_nan _ _ (is_nan_false x Hx) (is_nan_false y Hy))
    as Hc.
  destruct (SFcompare (Prim2SF x) (Prim2SF y)) as [[ | | ] | ]; simpl;
    congruence.
Qed.

End DoubleFacts.

(** ** The rejection threshold and the read accessors (header) *)

Module HeaderFacts.

Import Double DoubleFacts vpMeEllipse.

Lemma Prim2SF_d0 : Prim2SF d0 = S754_zero false.
Proof. vm_compute. reflexivity. Qed.

Lemma Prim2SF_d1 : Prim2SF d1 = S754_finite false 4503599627370496 (-52).
Proof. vm_compute. reflexivity. Qed.

(** A value above 1 is not below 0. *)
Lemma gt_one_not_lt_zero (x : double) : gt x d1 = true -> lt x d0 = false.
Proof.
  unfold gt, lt. rewrite !ltb_spec, Prim2SF_d0, Prim2SF_d1. unfold SFltb.
  destruct (Prim2SF x) as [sx | sx | | sx mx ex]; cbn [SFcompare];
    try discriminate; destruct sx; try discriminate; reflexivity.
Qed.

(** The only value that is both [<= 1] and [>= 1] is [1] itself. *)
Lemma le_antisym_one (x : double) :
  le d1 x = true -> le x d1 = true -> x = d1.
Proof.
  unfold le. rewrite !leb_spec. intros H1 H2. apply Prim2SF_inj.
  revert H1 H2. rewrite Prim2SF_d1. unfold SFleb.
  destruct (Prim2SF x) as [sx | sx | | sx mx ex]; cbn [SFcompare];
    try discriminate; destruct sx; try discriminate.
  rewrite (Z.compare_antisym ex (-52)).
  destruct (ex ?= -52)%Z eqn:He; cbn [CompOpp]; try discriminate.
  apply Z.compare_eq in He. subst ex.
  assert (Hswap : Pos.compare_cont Eq 4503599627370496 mx
                  = CompOpp (Pos.compare_cont Eq mx 4503599627370496))
    by (rewrite Pos.compare_cont_antisym; reflexivity).
  rewrite Hswap.
  destruct (Pos.compare_cont Eq mx 4503599627370496) eqn:Hm; cbn [CompOpp];
    try discriminate.
  apply Pos.compare_eq in Hm. subst mx. reflexivity.
Qed.

Lemma thresholdWeight_set (v : double) (this : t) :
  thresholdWeight (set_thresholdWeight v this) = v.
Proof. reflexivity. Qed.

(** The three branches of [setThresholdRobust]. *)
Lemma setThresholdRobust_below (x : double) (this : t) :
  lt x d0 = true -> setThresholdRobust x this = set_thresholdWeight d0 this.
Proof. intros H. unfold setThresholdRobust. rewrite H. reflexivity. Qed.

Lemma setThresholdRobust_above (x : double) (this : t) :
  gt x d1 = true -> setThresholdRobust x this = set_thresholdWeight d1 this.
Proof.
  intros H. unfold setThresholdRobust.
  rewrite (gt_one_not_lt_zero x H), H. reflexivity.
Qed.

Lemma setThresholdRobust_between (x : double) (this : t) :
  lt x d0 = false -> gt x d1 = false ->
  setThresholdRobust x this = set_thresholdWeight x this.
Proof. intros H0 H1. unfold setThresholdRobust. rewrite H0, H1. reflexivity. Qed.

(** A NaN is neither below 0 nor above 1: it is stored as it is. *)
Lemma setThresholdRobust_nan (x : double) (this : t) :
  is_nan x = true -> thresholdWeight (setThresholdRobust x this) = x.
Proof.
  intros H. rewrite setThresholdRobust_between.
  - reflexivity.
  - apply lt_nan_l, H.
  - apply lt_nan_r, H.
Qed.

(** C1. For every input [t] that is a real number (a double that is not a
    NaN), [setThresholdRobust t] stores a threshold that lies in [[0,1]]: 0
    when [t < 0], 1 when [t > 1], and [t] otherwise.  The call always
    writes [thresholdWeight], and nothing else: the value is clamped, never
    rejected. *)
Theorem setThresholdRobust_clamps (x : double) (this : t) :
  is_nan x = false ->
  let w := thresholdWeight (setThresholdRobust x this) in
  in_unit_interval w = true /\
  (lt x d0 = true -> w = d0) /\
  (gt x d1 = true -> w = d1) /\
  (lt x d0 = false -> gt x d1 = false -> w = x) /\
  setThresholdRobust x this = set_thresholdWeight w this.
Proof.
  intros Hx w. subst w.
  assert (Hbelow : lt x d0 = true ->
                   thresholdWeight (setThresholdRobust x this) = d0)
    by (intros H; rewrite (setThresholdRobust_below x this H); reflexivity).
  assert (Habove : gt x d1 = true ->
                   thresholdWeight (setThresholdRobust x this) = d1)
    by (intros H; rewrite (setThresholdRobust_above x this H); reflexivity).
  assert (Hbetween : lt x d0 = false -> gt x d1 = false ->
                     thresholdWeight (setThresholdRobust x this) = x)
    by (intros H0 H1; rewrite (setThresholdRobust_between x this H0 H1);
        reflexivity).
  repeat split; try assumption.
  - destruct (lt x d0) eqn:H0.
    + rewrite (Hbelow eq_refl). reflexivity.
    + destruct (gt x d1) eqn:H1.
      * rewrite (Habove eq_refl). reflexivity.
      * rewrite (Hbetween eq_refl eq_refl). unfold in_unit_interval.
        rewrite (lt_false_le x d0 Hx eq_refl H0).
        rewrite (lt_false_le d1 x eq_refl Hx H1). reflexivity.
  - destruct (lt x d0) eqn:H0.
    + rewrite (setThresholdRobust_below x this H0). reflexivity.
    + destruct (gt x d1) eqn:H1.
      * rewrite (setThresholdRobust_above x this H1). reflexivity.
      * rewrite (setThresholdRobust_between x this H0 H1). reflexivity.
Qed.

(** The threshold 7 is clamped to 1. *)
Lemma setThresholdRobust_clamps_witness :
  in_unit_interval (thresholdWeight (setThresholdRobust 7%float sample_tracker))
  = true /\
  thresholdWeight (setThresholdRobust 7%float sample_tracker) = d1.
Proof.
  pose proof (setThresholdRobust_clamps 7%float sample_tracker eq_refl) as H.
  destruct H as [Hin [_ [Habove _]]].
  split; [exact Hin | exact (Habove eq_refl)].
Defined.

(** A value above 1 is above 0. *)
Lemma gt_one_gt_zero (x : double) : gt x d1 = true -> lt d0 x = true.
Proof.
  unfold gt, lt. rewrite !ltb_spec, Prim2SF_d0, Prim2SF_d1. unfold SFltb.
  destruct (Prim2SF x) as [sx | sx | | sx mx ex]; cbn [SFcompare];
    try discriminate; destruct sx; try discriminate; reflexivity.
Qed.

(** C10 (as amended). For every input [t] already in [[0,1]], the boundary
    values 0 and 1 included, [setThresholdRobust t] stores [t] unchanged;
    and after any call whose argument is not a NaN the stored threshold is
    exactly [min(1, max(0, t))]: identical to it when [min] and [max] are
    defined from [<=], and equal to it as a number ([==]) when they are
    [std::min] and [std::max], which differ from the former on the two
    zeros only. *)
Theorem setThresholdRobust_identity_in_range (x : double) (this : t) :
  (in_unit_interval x = true ->
   thresholdWeight (setThresholdRobust x this) = x) /\
  thresholdWeight (setThresholdRobust d0 this) = d0 /\
  thresholdWeight (setThresholdRobust d1 this) = d1 /\
  (is_nan x = false ->
   thresholdWeight (setThresholdRobust x this) = clamp01 x) /\
  (is_nan x = false ->
   eqb (thresholdWeight (setThresholdRobust x this)) (clamp01_std x) = true).
Proof.
  split; [ | split; [ reflexivity | split; [ reflexivity | split ] ] ].
  - unfold in_unit_interval. intros H.
    apply andb_true_iff in H. destruct H as [H0 H1].
    rewrite (setThresholdRobust_between x this).
    + reflexivity.
    + apply le_true_lt, H0.
    + apply (le_true_lt x d1), H1.
  - intros Hx. unfold clamp01, min, max.
    destruct (lt x d0) eqn:H0.
    + rewrite (setThresholdRobust_below x this H0).
      rewrite (lt_true_not_le x d0 H0). reflexivity.
    + rewrite (lt_false_le x d0 Hx eq_refl H0).
      destruct (gt x d1) eqn:H1.
      * rewrite (setThresholdRobust_above x this H1).
        rewrite (lt_true_le d1 x H1). reflexivity.
      * rewrite (setThresholdRobust_between x this H0 H1).
        rewrite thresholdWeight_set.
        destruct (le d1 x) eqn:H2; [ | reflexivity ].
        apply le_antisym_one; [ exact H2 | ].
        apply (lt_false_le d1 x eq_refl Hx H1).
  - intros Hx. unfold clamp01_std, std_min, std_max.
    destruct (lt x d0) eqn:H0.
    + rewrite (setThresholdRobust_below x this H0), thresholdWeight_set.
      rewrite (lt_asym x d0 H0). vm_compute. reflexivity.
    + destruct (gt x d1) eqn:H1.
      * rewrite (setThresholdRobust_above x this H1), thresholdWeight_set.
        rewrite (gt_one_gt_zero x H1).
        unfold gt in H1. rewrite (lt_asym d1 x H1). vm_compute. reflexivity.
      * rewrite (setThresholdRobust_between x this H0 H1), thresholdWeight_set.
        unfold gt in H1.
        destruct (lt d0 x) eqn:H2.
        -- destruct (lt x d1) eqn:H3.
           ++ apply eqb_refl, Hx.
           ++ apply (not_lt_not_gt_eqb x d1 Hx eq_refl H3 H1).
        -- assert (Hz : eqb x d0 = true)
             by apply (not_lt_not_gt_eqb x d0 Hx eq_refl H0 H2).
           replace (lt d0 d1) with true by (vm_compute; reflexivity).
           exact Hz.
Qed.

(** The threshold 0.25 is stored unchanged and equals its clamped value. *)
Lemma setThresholdRobust_identity_in_range_witness :
  thresholdWeight (setThresholdRobust 0.25%float sample_tracker) = 0.25%float /\
  thresholdWeight (setThresholdRobust 0.25%float sample_tracker)
  = clamp01 0.25%float /\
  eqb (thresholdWeight (setThresholdRobust 0.25%float sample_tracker))
    (clamp01_std 0.25%float) = true.
Proof.
  pose proof (setThresholdRobust_identity_in_range 0.25%float sample_tracker)
    as H.
  destruct H as [Hid [_ [_ [Hclamp Hstd]]]].
  split; [exact (Hid eq_refl) | ].
  split; [exact (Hclamp eq_refl) | exact (Hstd eq_refl)].
Defined.

(** Two doubles that are identical agree on every test. *)
Lemma double_eq_is_nan (x y : double) : x = y -> is_nan x = is_nan y.
Proof. intros ->. reflexivity. Qed.

(** The closed form fails at a NaN: the setter stores the NaN, while
    [min(1, max(0, NaN))] is 0 (with either definition of [min] and [max]);
    the two are neither identical nor equal as numbers. *)
Lemma setThresholdRobust_nan_is_not_clamp01 :
  thresholdWeight (setThresholdRobust PrimFloat.nan sample_tracker)
  <> clamp01 PrimFloat.nan /\
  eqb (thresholdWeight (setThresholdRobust PrimFloat.nan sample_tracker))
    (clamp01 PrimFloat.nan) = false /\
  eqb (thresholdWeight (setThresholdRobust PrimFloat.nan sample_tracker))
    (clamp01_std PrimFloat.nan) = false /\
  is_nan (thresholdWeight (setThresholdRobust PrimFloat.nan sample_tracker))
  = true /\
  clamp01 PrimFloat.nan = d0 /\ clamp01_std PrimFloat.nan = d0.
Proof.
  split; [ | repeat split; vm_compute; reflexivity ].
  intros H. apply double_eq_is_nan in H. vm_compute in H. discriminate H.
Qed.

Lemma assign_same (n : nat) (v : double) (vars : variables) :
  assign n v vars n = v.
Proof. unfold assign. rewrite Nat.eqb_refl. reflexivity. Qed.

Lemma assign_other (n m : nat) (v : double) (vars : variables) :
  m <> n -> assign n v vars m = vars m.
Proof.
  intros H. unfold assign. apply Nat.eqb_neq in H. rewrite H. reflexivity.
Qed.

(** C9 (as amended). Every read accessor that returns its result (the
    centre, [a], [b], [e], the two angles, the nine moments) returns the
    value of the member it reads and leaves the tracker as it found it.
    [getEquationParam] does so when its three out-parameters are variables
    of the caller, outside the tracker: the tracker is unchanged, the
    variables receive [a], [b], [e] in this order and no other variable is
    written; when the three variables are distinct they hold the values
    [getA], [getB] and [getE] return. *)
Theorem read_accessors_are_snapshots
  (this : t) (vars : variables) (i j k : nat) :
  getCenter this = (iPc this, this) /\
  getA this = (a this, this) /\
  getB this = (b this, this) /\
  getE this = (e this, this) /\
  getSmallestAngle this = (alpha1 this, this) /\
  getHighestAngle this = (alpha2 this, this) /\
  get_m00 this = (m00 this, this) /\
  get_m10 this = (m10 this, this) /\
  get_m01 this = (m01 this, this) /\
  get_m11 this = (m11 this, this) /\
  get_m20 this = (m20 this, this) /\
  get_m02 this = (m02 this, this) /\
  get_mu11 this = (mu11 this, this) /\
  get_mu02 this = (mu02 this, this) /\
  get_mu20 this = (mu20 this, this) /\
  let st' :=
    getEquationParam (Variable_ i) (Variable_ j) (Variable_ k) (this, vars) in
  fst st' = this /\
  snd st'
  = assign k (fst (getE this))
      (assign j (fst (getB this)) (assign i (fst (getA this)) vars)) /\
  (forall n, n <> i -> n <> j -> n <> k -> snd st' n = vars n) /\
  (i <> j -> i <> k -> j <> k ->
   snd st' i = fst (getA this) /\
   snd st' j = fst (getB this) /\
   snd st' k = fst (getE this)).
Proof.
  do 15 (split; [reflexivity | ]).
  intros st'. subst st'.
  cbn [getEquationParam write fst snd getA getB getE].
  split; [reflexivity | split; [reflexivity | split] ].
  - intros n Hi Hj Hk. rewrite !assign_other by assumption. reflexivity.
  - intros Hij Hik Hjk. repeat split.
    + rewrite (assign_other k i) by assumption.
      rewrite (assign_other j i) by assumption. apply assign_same.
    + rewrite (assign_other k j) by assumption. apply assign_same.
    + apply assign_same.
Qed.

(** With [a = 3] and [b = 4], three distinct variables receive 3, 4 and
    the angle. *)
Lemma read_accessors_are_snapshots_witness :
  let st' :=
    getEquationParam (Variable_ 0) (Variable_ 1) (Variable_ 2)
      (tracker_3_4, no_variables) in
  fst st' = tracker_3_4 /\
  snd st' 0 = fst (getA tracker_3_4) /\
  snd st' 1 = fst (getB tracker_3_4) /\
  snd st' 2 = fst (getE tracker_3_4).
Proof.
  pose proof (read_accessors_are_snapshots tracker_3_4 no_variables 0 1 2)
    as H.
  do 15 (destruct H as [_ H]).
  destruct H as [Hthis [_ [_ Hvalues]]].
  split; [exact Hthis | ].
  apply Hvalues; discriminate.
Defined.

(** The claim fails when the out-parameters are the tracker's own members:
    with [a = 3] and [b = 4], the call [t.getEquationParam(t.b, t.a, t.e)]
    first stores 3 in [b], then copies that 3 into [a].  The tracker has
    changed ([b] is 3, no longer 4), and the value written to the second
    out-parameter is 3 although [getB] returned 4. *)
Lemma getEquationParam_aliased_changes_tracker :
  let st' :=
    getEquationParam (Member Fb) (Member Fa) (Member Fe)
      (tracker_3_4, no_variables) in
  fst st' <> tracker_3_4 /\
  fst (getB tracker_3_4) = 4%float /\
  b (fst st') = 3%float /\
  a (fst st') = 3%float /\
  eqb (a (fst st')) (fst (getB tracker_3_4)) = false.
Proof.
  split; [ | repeat split; vm_compute; reflexivity ].
  intros H. apply (f_equal b) in H. vm_compute in H.
  apply (f_equal (fun x => lt x 4%float)) in H. vm_compute in H.
  discriminate H.
Qed.

End HeaderFacts.

(** ** The re-weighting loop *)

Module ConicEstimatorFacts.

Import Double vpMeEllipse ConicEstimator.

Section Loop.

Variable solve_ellipse : list vpMeSite -> list double -> option (list double).
Variable solve_circle :
  list vpMeSite -> list double -> option (double * double * double).
Variable weight_function : double -> double.
Variable stabilized : list double -> list double -> bool.

Local Abbreviation fit := (fit solve_ellipse solve_circle).
Local Abbreviation site_weight := (site_weight weight_function).
Local Abbreviation flagged := (flagged weight_function).
Local Abbreviation suppressPoints := (suppressPoints weight_function).
Local Abbreviation reweight :=
  (reweight solve_ellipse solve_circle weight_function stabilized).
Local Abbreviation iterations :=
  (iterations solve_ellipse solve_circle weight_function stabilized).

(** The equations of the two recursions. *)
Lemma reweight_eq n circle_ thr sites w :
  reweight n circle_ thr sites w =
  if distinct_points sites <? min_points circle_ then
    Err InsufficientPointsError
  else
    match fit circle_ sites w with
    | None => Err DegenerateGeometryError
    | Some K_ =>
        match n with
        | O => conclude K_ (suppressPoints thr K_ sites)
        | S n' =>
            if stabilized w (map (site_weight K_) sites)
            then conclude K_ (suppressPoints thr K_ sites)
            else reweight n' circle_ thr (suppressPoints thr K_ sites)
                   (map (site_weight K_) (suppressPoints thr K_ sites))
        end
    end.
Proof. destruct n; reflexivity. Qed.

Lemma iterations_eq n circle_ thr sites w :
  iterations n circle_ thr sites w =
  if distinct_points sites <? min_points circle_ then
    [mkIteration sites None sites]
  else
    match fit circle_ sites w with
    | None => [mkIteration sites None sites]
    | Some K_ =>
        mkIteration sites (Some K_) (suppressPoints thr K_ sites) ::
        match n with
        | O => []
        | S n' =>
            if stabilized w (map (site_weight K_) sites) then []
            else iterations n' circle_ thr (suppressPoints thr K_ sites)
                   (map (site_weight K_) (suppressPoints thr K_ sites))
        end
    end.
Proof. destruct n; reflexivity. Qed.

(** Suppression removes exactly the flagged sites. *)
Lemma suppressPoints_In thr K_ sites s :
  In s (suppressPoints thr K_ sites) <->
  In s sites /\ flagged thr K_ s = false.
Proof.
  unfold ConicEstimator.suppressPoints. rewrite filter_In.
  rewrite negb_true_iff. reflexivity.
Qed.

Lemma suppressPoints_incl thr K_ sites :
  incl (suppressPoints thr K_ sites) sites.
Proof. intros s Hs. apply suppressPoints_In in Hs. apply Hs. Qed.

Lemma suppressPoints_flagged thr K_ sites s :
  flagged thr K_ s = true -> ~ In s (suppressPoints thr K_ sites).
Proof.
  intros Hf Hs. apply suppressPoints_In in Hs. destruct Hs as [_ Hs].
  rewrite Hf in Hs. discriminate Hs.
Qed.

(** Every iteration of a run starts within the sites the run started from,
    and leaves a part of what it started from. *)
Lemma iterations_incl n : forall circle_ thr sites w it,
  In it (iterations n circle_ thr sites w) ->
  incl (before it) sites /\ incl (after it) (before it).
Proof.
  induction n as [ | n IH]; intros circle_ thr sites w it;
    rewrite iterations_eq;
    destruct (distinct_points sites <? min_points circle_);
    try (intros [<- | []]; split; apply incl_refl);
    destruct (fit circle_ sites w) as [K_ | ];
    try (intros [<- | []]; split; apply incl_refl).
  - intros [<- | []]. split; [apply incl_refl | apply suppressPoints_incl].
  - intros [<- | Hin].
    + split; [apply incl_refl | apply suppressPoints_incl].
    + destruct (stabilized w (map (site_weight K_) sites)); [destruct Hin | ].
      destruct (IH _ _ _ _ _ Hin) as [Hb Ha]. split; [ | exact Ha].
      intros s Hs. apply (suppressPoints_incl thr K_ sites), Hb, Hs.
Qed.

(** The iteration at index 0 starts from the sites of the run; an
    iteration at a later index starts within what the first one left. *)
Lemma iterations_head n circle_ thr sites w it :
  nth_error (iterations n circle_ thr sites w) 0 = Some it ->
  before it = sites /\
  (forall K_, fitted it = Some K_ -> after it = suppressPoints thr K_ sites).
Proof.
  rewrite iterations_eq.
  destruct (distinct_points sites <? min_points circle_);
    [ intros [= <-]; split; [reflexivity | discriminate] | ].
  destruct (fit circle_ sites w) as [K_ | ];
    [ | intros [= <-]; split; [reflexivity | discriminate] ].
  intros [= <-]. split; [reflexivity | ]. intros K' [= <-]. reflexivity.
Qed.

Lemma iterations_later n circle_ thr sites w it0 j it :
  nth_error (iterations n circle_ thr sites w) 0 = Some it0 ->
  nth_error (iterations n circle_ thr sites w) (S j) = Some it ->
  incl (before it) (after it0).
Proof.
  rewrite iterations_eq.
  destruct (distinct_points sites <? min_points circle_);
    [ intros _; destruct j; discriminate | ].
  destruct (fit circle_ sites w) as [K_ | ];
    [ | intros _; destruct j; discriminate ].
  intros [= <-]. cbn [nth_error after].
  destruct n as [ | n]; [ destruct j; discriminate | ].
  destruct (stabilized w (map (site_weight K_) sites));
    [ destruct j; discriminate | ].
  intros Hj. apply nth_error_In in Hj.
  apply (iterations_incl _ _ _ _ _ _ Hj).
Qed.

(** The tail of a run is the run from the sites the first iteration left. *)
Lemma iterations_tail n circle_ thr sites w i it :
  nth_error (iterations n circle_ thr sites w) (S i) = Some it ->
  exists n' sites' w',
    forall k, nth_error (iterations n circle_ thr sites w) (S k)
              = nth_error (iterations n' circle_ thr sites' w') k.
Proof.
  rewrite iterations_eq.
  destruct (distinct_points sites <? min_points circle_);
    [ destruct i; discriminate | ].
  destruct (fit circle_ sites w) as [K_ | ]; [ | destruct i; discriminate ].
  destruct n as [ | n]; [ destruct i; discriminate | ].
  destruct (stabilized w (map (site_weight K_) sites));
    [ destruct i; discriminate | ].
  intros _. exists n, (suppressPoints thr K_ sites),
    (map (site_weight K_) (suppressPoints thr K_ sites)).
  intros k. reflexivity.
Qed.

(** Suppression is permanent along a run: a site flagged by the fit of
    iteration [i] is not in the set that iteration leaves, nor in the set any
    later iteration starts from or leaves. *)
Lemma iterations_suppressed i : forall n circle_ thr sites w it K_ s,
  nth_error (iterations n circle_ thr sites w) i = Some it ->
  fitted it = Some K_ ->
  flagged thr K_ s = true ->
  ~ In s (after it) /\
  forall j it', i < j ->
    nth_error (iterations n circle_ thr sites w) j = Some it' ->
    ~ In s (before it') /\ ~ In s (after it').
Proof.
  induction i as [ | i IH]; intros n circle_ thr sites w it K_ s Hi HK Hs.
  - destruct (iterations_head _ _ _ _ _ _ Hi) as [_ Hafter].
    assert (Hout : ~ In s (after it)).
    { rewrite (Hafter K_ HK). apply suppressPoints_flagged, Hs. }
    split; [exact Hout | ].
    intros j it' Hlt Hj. destruct j as [ | j]; [lia | ].
    pose proof (iterations_later _ _ _ _ _ _ _ _ Hi Hj) as Hb.
    assert (Hnb : ~ In s (before it')) by (intros H; apply Hout, Hb, H).
    split; [exact Hnb | ].
    intros H. apply Hnb.
    apply nth_error_In in Hj.
    apply (proj2 (iterations_incl _ _ _ _ _ _ Hj)), H.
  - destruct (iterations_tail _ _ _ _ _ _ _ Hi) as (n' & sites' & w' & Htl).
    rewrite Htl in Hi.
    destruct (IH _ _ _ _ _ _ _ _ Hi HK Hs) as [Hout Hlater].
    split; [exact Hout | ].
    intros j it' Hlt Hj. destruct j as [ | j]; [lia | ].
    rewrite Htl in Hj. apply (Hlater j it'); [lia | exact Hj].
Qed.

(** A run that succeeds returns the set its last iteration left. *)
Lemma reweight_Ok n : forall circle_ thr sites w K_ sites',
  reweight n circle_ thr sites w = Ok (K_, sites') ->
  exists i it,
    nth_error (iterations n circle_ thr sites w) i = Some it /\
    nth_error (iterations n circle_ thr sites w) (S i) = None /\
    fitted it = Some K_ /\ after it = sites'.
Proof.
  assert (Hconclude : forall K0 s0 K_ sites',
            conclude K0 s0 = Ok (K_, sites') -> K0 = K_ /\ s0 = sites').
  { intros K0 s0 K_ sites'. unfold conclude.
    destruct (lt d0 (discriminant K0)); [ | discriminate].
    intros [= <- <-]. split; reflexivity. }
  induction n as [ | n IH]; intros circle_ thr sites w K_ sites';
    rewrite reweight_eq, iterations_eq;
    destruct (distinct_points sites <? min_points circle_); try discriminate;
    destruct (fit circle_ sites w) as [K0 | ]; try discriminate.
  - intros H. apply Hconclude in H. destruct H as [<- <-].
    exists 0. eexists. repeat split.
  - destruct (stabilized w (map (site_weight K0) sites)).
    + intros H. apply Hconclude in H. destruct H as [<- <-].
      exists 0. eexists. repeat split.
    + intros H. destruct (IH _ _ _ _ _ _ H) as (i & it & Hi & Hend & HK & Ha).
      exists (S i), it. repeat split; assumption.
Qed.

(** The last element of a non-empty list does not depend on the default. *)
Lemma last_nonempty {A : Type} (l : list A) (d d' : A) :
  l <> [] -> last l d = last l d'.
Proof.
  induction l as [ | x l IH]; [congruence | ]. intros _.
  destruct l as [ | y l]; [reflexivity | ].
  cbn [last] in *. apply IH. discriminate.
Qed.

(** The two recursions agree: [reweight] returns the outcome of the last
    of its [iterations], whether it succeeds or fails. *)
Lemma reweight_outcome n : forall circle_ thr sites w,
  reweight n circle_ thr sites w =
  outcome circle_
    (last (iterations n circle_ thr sites w) (mkIteration sites None sites)).
Proof.
  induction n as [ | n IH]; intros circle_ thr sites w;
    rewrite reweight_eq, iterations_eq; unfold outcome;
    destruct (distinct_points sites <? min_points circle_) eqn:Hcheck;
    cbn [last fitted before after]; rewrite ?Hcheck; try reflexivity;
    destruct (fit circle_ sites w) as [K_ | ];
    cbn [last fitted before after]; rewrite ?Hcheck; try reflexivity.
  destruct (stabilized w (map (site_weight K_) sites)); [reflexivity | ].
  rewrite IH.
  set (sites' := suppressPoints thr K_ sites).
  set (w' := map (site_weight K_) sites').
  assert (Hne : iterations n circle_ thr sites' w' <> []).
  { rewrite iterations_eq.
    destruct (distinct_points sites' <? min_points circle_);
      [discriminate | ].
    destruct (fit circle_ sites' w'); discriminate. }
  destruct (iterations n circle_ thr sites' w') as [ | it rest] eqn:Htr;
    [congruence | ].
  rewrite (last_nonempty (it :: rest) (mkIteration sites' None sites')
             (mkIteration sites None sites) Hne).
  reflexivity.
Qed.

(** A run whose iteration finds too few distinct points fails with
    [InsufficientPointsError]. *)
Lemma reweight_insufficient n : forall circle_ thr sites w it,
  In it (iterations n circle_ thr sites w) ->
  distinct_points (before it) < min_points circle_ ->
  reweight n circle_ thr sites w = Err InsufficientPointsError.
Proof.
  induction n as [ | n IH]; intros circle_ thr sites w it;
    rewrite reweight_eq, iterations_eq;
    destruct (distinct_points sites <? min_points circle_) eqn:Hcheck;
    try reflexivity;
    apply Nat.ltb_ge in Hcheck;
    destruct (fit circle_ sites w) as [K_ | ];
    try (intros [<- | []]; cbn [before]; lia).
  - intros [<- | Hin]; [cbn [before]; lia | ].
    destruct (stabilized w (map (site_weight K_) sites)); [destruct Hin | ].
    intros Hlt. apply (IH _ _ _ _ _ Hin Hlt).
Qed.

(** A list has at most as many distinct points as it has sites. *)
Lemma distinct_points_le_length (sites : list vpMeSite) :
  distinct_points sites <= length sites.
Proof.
  induction sites as [ | s rest IH]; simpl; [lia | ].
  destruct (occurs (position s) rest); lia.
Qed.

Variable iteration_cap : nat.
Variable populate : t -> result t.

Local Abbreviation leastSquare :=
  (leastSquare solve_ellipse solve_circle weight_function stabilized
     iteration_cap).
Local Abbreviation leastSquare_iterations :=
  (leastSquare_iterations solve_ellipse solve_circle weight_function
     stabilized iteration_cap).
Local Abbreviation initTracking :=
  (initTracking solve_ellipse solve_circle weight_function stabilized
     iteration_cap populate).
Local Abbreviation initTracking_iterations :=
  (initTracking_iterations solve_ellipse solve_circle weight_function
     stabilized iteration_cap).

(** A fit that fails for lack of points fails the initialization. *)
Lemma initTracking_reweight_Err points this err :
  reweight iteration_cap (circle this) (thresholdWeight this) (seed points)
    (map weight (seed points)) = Err err ->
  initTracking points this = Err err.
Proof.
  intros H. unfold ConicEstimator.initTracking, ConicEstimator.leastSquare.
  cbn [set_list base list_ circle thresholdWeight]. rewrite H. reflexivity.
Qed.

(** C3. Initialization fails with [InsufficientPointsError] whenever fewer
    than the minimum number of distinct points (5 in ellipse mode, 3 in
    circle mode) are supplied, or remain at an iteration of the fit; so it
    does whenever fewer points than the minimum are supplied, and in
    particular with 4 points in ellipse mode. *)
Theorem initTracking_insufficient_points
  (points : list vpImagePoint) (this : t) :
  (distinct_points (seed points) < min_points (circle this) ->
   initTracking points this = Err InsufficientPointsError) /\
  (forall it, In it (initTracking_iterations points this) ->
     distinct_points (before it) < min_points (circle this) ->
     initTracking points this = Err InsufficientPointsError) /\
  (length points < (if circle this then 3 else 5) ->
   initTracking points this = Err InsufficientPointsError) /\
  (circle this = false -> length points = 4 ->
   initTracking points this = Err InsufficientPointsError).
Proof.
  assert (Hsupplied :
            distinct_points (seed points) < min_points (circle this) ->
            initTracking points this = Err InsufficientPointsError).
  { intros Hlt. apply initTracking_reweight_Err. rewrite reweight_eq.
    apply Nat.ltb_lt in Hlt. rewrite Hlt. reflexivity. }
  assert (Hlength :
            length points < (if circle this then 3 else 5) ->
            initTracking points this = Err InsufficientPointsError).
  { intros Hlt. apply Hsupplied.
    pose proof (distinct_points_le_length (seed points)) as Hle.
    unfold seed in Hle. rewrite length_map in Hle.
    unfold min_points, seed. lia. }
  repeat split.
  - exact Hsupplied.
  - intros it Hin Hlt. apply initTracking_reweight_Err.
    apply (reweight_insufficient _ _ _ _ _ _ Hin Hlt).
  - exact Hlength.
  - intros Hc Hlen. apply Hlength. rewrite Hc, Hlen. lia.
Qed.

(** C4. Once the weight of a site of the active set falls below the
    rejection threshold at an iteration of the fit, the site is removed for
    good: it is not in the set that iteration leaves, it is in no set a
    later iteration of the frame starts from or leaves, and it is not in
    the site list the fit returns, which holds only sites the fit started
    from (the fit seeds none). *)
Theorem suppression_is_permanent
  (this : t) (i : nat) (it : iteration) (K_ : list double) (s : vpMeSite) :
  nth_error (leastSquare_iterations this) i = Some it ->
  fitted it = Some K_ ->
  In s (before it) ->
  lt (site_weight K_ s) (thresholdWeight this) = true ->
  ~ In s (after it) /\
  (forall j it', i < j ->
     nth_error (leastSquare_iterations this) j = Some it' ->
     ~ In s (before it') /\ ~ In s (after it')) /\
  (forall this', leastSquare this = Ok this' ->
     ~ In s (list_ (base this')) /\
     incl (list_ (base this')) (list_ (base this))).
Proof.
  intros Hi HK _ Hs.
  destruct (iterations_suppressed i _ _ _ _ _ _ _ s Hi HK Hs)
    as [Hout Hlater].
  split; [exact Hout | split; [exact Hlater | ] ].
  intros this'. unfold ConicEstimator.leastSquare.
  destruct (reweight iteration_cap (circle this) (thresholdWeight this)
              (list_ (base this)) (map weight (list_ (base this))))
    as [[K' sites'] | err] eqn:Hrun; [ | discriminate ].
  intros [= <-]. cbn [set_list base list_].
  destruct (reweight_Ok _ _ _ _ _ _ _ Hrun)
    as (k & last & Hk & Hend & _ & Hafter).
  fold (leastSquare_iterations this) in Hk, Hend.
  split.
  - rewrite <- Hafter.
    destruct (Nat.lt_trichotomy i k) as [Hlt | [Heq | Hgt]].
    + apply (Hlater k last Hlt Hk).
    + subst k. rewrite Hi in Hk. injection Hk as <-. exact Hout.
    + apply nth_error_None in Hend.
      assert (Hsome : nth_error (leastSquare_iterations this) i <> None)
        by (rewrite Hi; discriminate).
      apply nth_error_Some in Hsome. lia.
  - rewrite <- Hafter. apply nth_error_In in Hk.
    destruct (iterations_incl _ _ _ _ _ _ Hk) as [Hb Ha].
    intros x Hx. apply Hb, Ha, Hx.
Qed.

End Loop.

(** The model at work: six points of a circle of radius 5 and an outlier,
    threshold 0.5.  The outlier is flagged by the first fit. *)
Definition demo_tracker : t :=
  set_list (seed (on_circle ++ [outlier]))
    (setThresholdRobust 0.5%float sample_tracker).

Lemma suppression_is_permanent_witness :
  exists this',
    leastSquare demo_solve_ellipse demo_solve_circle demo_weight
      demo_stabilized demo_cap demo_tracker = Ok this' /\
    In (mkSite outlier d1) (list_ (base demo_tracker)) /\
    ~ In (mkSite outlier d1) (list_ (base this')).
Proof.
  eexists. split; [ vm_compute; reflexivity | ].
  split; [ vm_compute; tauto | ].
  refine (proj1 (proj2 (proj2
    (suppression_is_permanent demo_solve_ellipse demo_solve_circle
       demo_weight demo_stabilized demo_cap demo_tracker 0
       (mkIteration (seed (on_circle ++ [outlier])) (Some circle5)
          (seed on_circle))
       circle5 (mkSite outlier d1) _ _ _ _)) _ _)).
  - vm_compute. reflexivity.
  - reflexivity.
  - vm_compute. tauto.
  - vm_compute. reflexivity.
  - vm_compute. reflexivity.
Defined.

(** Four points in ellipse mode: the initialization fails. *)
Lemma initTracking_insufficient_points_witness :
  initTracking demo_solve_ellipse demo_solve_circle demo_weight
    demo_stabilized demo_cap demo_populate (firstn 4 on_circle)
    sample_tracker
  = Err InsufficientPointsError.
Proof.
  apply (initTracking_insufficient_points demo_solve_ellipse
           demo_solve_circle demo_weight demo_stabilized demo_cap
           demo_populate (firstn 4 on_circle) sample_tracker).
  - reflexivity.
  - reflexivity.
Defined.

End ConicEstimatorFacts.

(** ** Further properties of the setters of the header *)

Module SetterFacts.

Import Double DoubleFacts vpMeEllipse HeaderFacts.

Ltac order_cases :=
  repeat match goal with
  | |- context [(?a ?= ?b)%Z] => destruct (Z.compare_spec a b)
  | |- context [(?a ?= ?b)%positive] => destruct (Pos.compare_spec a b)
  end.

(** Every case of a three-way comparison in which two of the operands are
    not both finite is settled by the signs. *)
Ltac compare_by_cases :=
  cbn [SFcompare]; try discriminate;
  repeat match goal with
  | s : bool |- _ => destruct s
  end;
  try discriminate; try reflexivity;
  change (Pos.compare_cont Eq) with Pos.compare;
  order_cases; cbn [CompOpp]; try discriminate; try reflexivity; try lia.

(** [SFcompare] is transitive, strictly and through an equality. *)
Lemma SFcompare_Lt_Lt (x y z : spec_float) :
  SFcompare x y = Some Lt -> SFcompare y z = Some Lt ->
  SFcompare x z = Some Lt.
Proof.
  destruct x as [sx | sx | | sx mx ex], y as [sy | sy | | sy my ey],
    z as [sz | sz | | sz mz ez]; compare_by_cases.
Qed.

Lemma SFcompare_Eq_Lt (x y z : spec_float) :
  SFcompare x y = Some Eq -> SFcompare y z = Some Lt ->
  SFcompare x z = Some Lt.
Proof.
  destruct x as [sx | sx | | sx mx ex], y as [sy | sy | | sy my ey],
    z as [sz | sz | | sz mz ez]; compare_by_cases.
Qed.

Lemma SFcompare_Lt_Eq (x y z : spec_float) :
  SFcompare x y = Some Lt -> SFcompare y z = Some Eq ->
  SFcompare x z = Some Lt.
Proof.
  destruct x as [sx | sx | | sx mx ex], y as [sy | sy | | sy my ey],
    z as [sz | sz | | sz mz ez]; compare_by_cases.
Qed.

Lemma SFcompare_refl (x : spec_float) :
  x <> S754_nan -> SFcompare x x = Some Eq.
Proof.
  destruct x as [sx | sx | | sx mx ex]; intros Hx; try congruence;
    cbn [SFcompare]; try reflexivity; destruct sx; try reflexivity;
    rewrite Z.compare_refl, Pos.compare_cont_refl; reflexivity.
Qed.

(** [x < y <= z] and [x <= y < z] both give [x < z]. *)
Lemma lt_le_trans (x y z : double) :
  lt x y = true -> le y z = true -> lt x z = true.
Proof.
  unfold lt, le. rewrite !ltb_spec, leb_spec. unfold SFltb, SFleb.
  destruct (SFcompare (Prim2SF x) (Prim2SF y)) as [[ | | ] | ] eqn:Hxy;
    try discriminate.
  destruct (SFcompare (Prim2SF y) (Prim2SF z)) as [[ | | ] | ] eqn:Hyz;
    try discriminate; intros _ _.
  - rewrite (SFcompare_Lt_Eq _ _ _ Hxy Hyz). reflexivity.
  - rewrite (SFcompare_Lt_Lt _ _ _ Hxy Hyz). reflexivity.
Qed.

Lemma le_lt_trans (x y z : double) :
  le x y = true -> lt y z = true -> lt x z = true.
Proof.
  unfold lt, le. rewrite !ltb_spec, leb_spec. unfold SFltb, SFleb.
  destruct (SFcompare (Prim2SF x) (Prim2SF y)) as [[ | | ] | ] eqn:Hxy;
    try discriminate;
    destruct (SFcompare (Prim2SF y) (Prim2SF z)) as [[ | | ] | ] eqn:Hyz;
    try discriminate; intros _ _.
  - rewrite (SFcompare_Eq_Lt _ _ _ Hxy Hyz). reflexivity.
  - rewrite (SFcompare_Lt_Lt _ _ _ Hxy Hyz). reflexivity.
Qed.

(** Only values that are not NaN are ordered by [<=]. *)
Lemma le_true_not_nan (x y : double) :
  le x y = true -> is_nan x = false /\ is_nan y = false.
Proof.
  unfold le, is_nan, PrimFloat.is_nan. rewrite leb_spec, !eqb_spec.
  unfold SFleb, SFeqb. intros H.
  assert (Hx : Prim2SF x <> S754_nan)
    by (intros E; rewrite E in H; discriminate H).
  assert (Hy : Prim2SF y <> S754_nan)
    by (intros E; rewrite E in H; destruct (Prim2SF x); discriminate H).
  rewrite (SFcompare_refl _ Hx), (SFcompare_refl _ Hy). split; reflexivity.
Qed.

(** The comparisons of the constants 0 and 1 the setter can meet. *)
Lemma lt_d0_d0 : lt d0 d0 = false. Proof. vm_compute. reflexivity. Qed.
Lemma gt_d0_d1 : gt d0 d1 = false. Proof. vm_compute. reflexivity. Qed.
Lemma lt_d1_d0 : lt d1 d0 = false. Proof. vm_compute. reflexivity. Qed.
Lemma gt_d1_d1 : gt d1 d1 = false. Proof. vm_compute. reflexivity. Qed.

(** The value [setThresholdRobust] stores, as a function of its argument. *)
Definition stored (x : double) : double :=
  if lt x d0 then d0 else if gt x d1 then d1 else x.

Lemma setThresholdRobust_stored (x : double) (this : t) :
  setThresholdRobust x this = set_thresholdWeight (stored x) this.
Proof.
  unfold setThresholdRobust, stored.
  destruct (lt x d0); [reflexivity | ]. destruct (gt x d1); reflexivity.
Qed.

(** A stored value is neither below 0 nor above 1, NaN included. *)
Lemma stored_between (x : double) :
  lt (stored x) d0 = false /\ gt (stored x) d1 = false.
Proof.
  unfold stored. destruct (lt x d0) eqn:H0.
  - split; [exact lt_d0_d0 | exact gt_d0_d1].
  - destruct (gt x d1) eqn:H1.
    + split; [exact lt_d1_d0 | exact gt_d1_d1].
    + split; assumption.
Qed.

Lemma stored_in_range (x : double) :
  is_nan x = false -> in_unit_interval (stored x) = true.
Proof.
  intros Hx. unfold stored, in_unit_interval.
  destruct (lt x d0) eqn:H0; [vm_compute; reflexivity | ].
  destruct (gt x d1) eqn:H1; [vm_compute; reflexivity | ].
  rewrite (lt_false_le x d0 Hx eq_refl H0).
  rewrite (lt_false_le d1 x eq_refl Hx H1). reflexivity.
Qed.

(** X1. Writing back the threshold a call has stored changes nothing:
    clamping is idempotent, for every double (NaN included). *)
Theorem setThresholdRobust_idempotent (x : double) (this : t) :
  setThresholdRobust (thresholdWeight (setThresholdRobust x this))
    (setThresholdRobust x this)
  = setThresholdRobust x this.
Proof.
  rewrite (setThresholdRobust_stored x this).
  cbn [thresholdWeight set_thresholdWeight].
  destruct (stored_between x) as [H0 H1].
  rewrite (setThresholdRobust_between _ _ H0 H1). reflexivity.
Qed.

(** X2. The last write wins: a call of [setThresholdRobust] erases the
    effect of an earlier one. *)
Theorem setThresholdRobust_last_write_wins (x y : double) (this : t) :
  setThresholdRobust y (setThresholdRobust x this) = setThresholdRobust y this.
Proof.
  rewrite (setThresholdRobust_stored x this).
  rewrite !(setThresholdRobust_stored y). reflexivity.
Qed.

(** X3. The stored threshold lies in [[0,1]] exactly when the argument is
    not a NaN: a NaN passes both tests of the setter and is stored. *)
Theorem setThresholdRobust_in_range_iff_not_nan (x : double) (this : t) :
  in_unit_interval (thresholdWeight (setThresholdRobust x this))
  = negb (is_nan x).
Proof.
  rewrite (setThresholdRobust_stored x this).
  cbn [thresholdWeight set_thresholdWeight].
  destruct (is_nan x) eqn:Hx; cbn [negb].
  - unfold stored. rewrite (lt_nan_l x d0 Hx).
    change (gt x d1) with (lt d1 x). rewrite (lt_nan_r d1 x Hx).
    unfold in_unit_interval.
    destruct (le d0 x) eqn:Hle; [ | reflexivity ].
    destruct (le_true_not_nan d0 x Hle) as [_ Hn]. congruence.
  - apply stored_in_range, Hx.
Qed.

(** X4. The setter is monotone: of two ordered arguments, the smaller one
    stores the smaller (or the same) threshold. *)
Theorem setThresholdRobust_monotone (x y : double) (this this' : t) :
  le x y = true ->
  le (thresholdWeight (setThresholdRobust x this))
     (thresholdWeight (setThresholdRobust y this')) = true.
Proof.
  intros Hxy. destruct (le_true_not_nan x y Hxy) as [Hx Hy].
  rewrite (setThresholdRobust_stored x this).
  rewrite (setThresholdRobust_stored y this').
  cbn [thresholdWeight set_thresholdWeight].
  pose proof (stored_in_range y Hy) as Hry.
  pose proof (stored_in_range x Hx) as Hrx.
  unfold in_unit_interval in Hrx, Hry.
  apply andb_true_iff in Hrx, Hry.
  destruct Hrx as [Hx0 Hx1], Hry as [Hy0 Hy1].
  unfold stored in *.
  destruct (lt x d0) eqn:Hxlow; [exact Hy0 | ].
  destruct (gt x d1) eqn:Hxhigh.
  - unfold gt in Hxhigh.
    pose proof (lt_le_trans d1 x y Hxhigh Hxy) as Hyhigh.
    change (gt y d1 = true) in Hyhigh.
    rewrite (gt_one_not_lt_zero y Hyhigh), Hyhigh. vm_compute. reflexivity.
  - destruct (lt y d0) eqn:Hylow.
    + rewrite (le_lt_trans x y d0 Hxy Hylow) in Hxlow. discriminate Hxlow.
    + destruct (gt y d1) eqn:Hyhigh; [exact Hx1 | exact Hxy].
Qed.

(** The thresholds 0.25 and 7 are stored in this order. *)
Lemma setThresholdRobust_monotone_witness :
  le (thresholdWeight (setThresholdRobust 0.25%float sample_tracker))
     (thresholdWeight (setThresholdRobust 7%float sample_tracker)) = true.
Proof.
  apply (setThresholdRobust_monotone 0.25%float 7%float sample_tracker
           sample_tracker).
  vm_compute. reflexivity.
Defined.

(** X5. The two setters are independent: they commute, [setCircle] keeps
    the threshold and [setThresholdRobust] keeps the mode, and neither
    changes what a read accessor returns. *)
Theorem setters_commute_and_keep_reads
  (x : double) (c : bool) (this : t) :
  setCircle c (setThresholdRobust x this)
  = setThresholdRobust x (setCircle c this) /\
  thresholdWeight (setCircle c this) = thresholdWeight this /\
  circle (setThresholdRobust x this) = circle this /\
  circle (setCircle c this) = c /\
  (forall this', this' = setCircle c this \/
                 this' = setThresholdRobust x this ->
     fst (getCenter this') = fst (getCenter this) /\
     (fst (getA this'), fst (getB this'), fst (getE this'))
     = (fst (getA this), fst (getB this), fst (getE this)) /\
     (forall A B E vars,
        snd (getEquationParam A B E (this', vars))
        = snd (getEquationParam A B E (this, vars))) /\
     fst (getSmallestAngle this') = fst (getSmallestAngle this) /\
     fst (getHighestAngle this') = fst (getHighestAngle this) /\
     (fst (get_m00 this'), fst (get_m10 this'), fst (get_m01 this'))
     = (fst (get_m00 this), fst (get_m10 this), fst (get_m01 this)) /\
     (fst (get_m11 this'), fst (get_m20 this'), fst (get_m02 this'))
     = (fst (get_m11 this), fst (get_m20 this), fst (get_m02 this)) /\
     (fst (get_mu11 this'), fst (get_mu20 this'), fst (get_mu02 this'))
     = (fst (get_mu11 this), fst (get_mu20 this), fst (get_mu02 this)) /\
     K this' = K this /\ base this' = base this).
Proof.
  rewrite !(setThresholdRobust_stored x).
  do 4 (split; [reflexivity | ]).
  intros this' H.
  assert (Hcalls : forall A B E vars,
            snd (getEquationParam A B E (this', vars))
            = snd (getEquationParam A B E (this, vars))).
  { destruct H as [-> | ->]; rewrite ?(setThresholdRobust_stored x);
      intros [i | f] [j | g] [k | h] vars; reflexivity. }
  destruct H as [-> | ->]; rewrite ?(setThresholdRobust_stored x);
    (do 2 (split; [reflexivity | ]));
    (split; [exact Hcalls | ]); repeat split.
Qed.

(** X6. The setter alters its argument only when it is out of range: the
    stored threshold is the argument itself exactly when the argument is
    neither below 0 nor above 1 (so a negative zero and a NaN are kept). *)
Theorem setThresholdRobust_keeps_iff_between (x : double) (this : t) :
  thresholdWeight (setThresholdRobust x this) = x <->
  lt x d0 = false /\ gt x d1 = false.
Proof.
  rewrite (setThresholdRobust_stored x this).
  cbn [thresholdWeight set_thresholdWeight]. unfold stored. split.
  - destruct (lt x d0) eqn:H0.
    + intros E. rewrite <- E in H0. rewrite lt_d0_d0 in H0. discriminate H0.
    + destruct (gt x d1) eqn:H1; [ | split; reflexivity ].
      intros E. rewrite <- E in H1. rewrite gt_d1_d1 in H1. discriminate H1.
  - intros [H0 H1]. rewrite H0, H1. reflexivity.
Qed.

End SetterFacts.
